(** * Eigenvector centrality by power iteration (noshlib)

    A shallow embedding of [EigenvectorCentralityCalculator] and the
    properties its specification states about [powerIteration].

    The TypeScript source computes on the ECMAScript [number] type.  The
    embedding is written once over an interface [Number] of the arithmetic the
    code uses and is read at two instances:

    - [binary64]: IEEE 754 double precision, round to nearest even, as given
      by the standard library's [SpecFloat] (an executable specification; the
      NaN payload is not represented).  This is what the code runs on.
    - [exact_arith]: the real numbers extended by one error value, i.e. the
      arithmetic of the algorithm on paper, with no rounding and no range.

    Arrays are lists (dense, as [number[]] promises); reading an array out
    of range yields [undefined], which arithmetic converts to NaN.
    [Math.sqrt] is taken to be correctly rounded, as every engine computes it.
    The loop bound [nIter] is a natural number, and the default of [rng],
    which draws from [Math.random], is left to the caller. *)

From stdpp Require Import gmap list.
From Stdlib Require Import ZArith Floats Reals Lra.

Set Warnings "-inexact-float".

(** ** The arithmetic the code uses *)

Class Number (num : Type) := {
  zero : num;                       (* the literal 0 *)
  nan : num;                        (* ToNumber(undefined) *)
  add : num -> num -> num;          (* x + y *)
  sub : num -> num -> num;          (* x - y *)
  mul : num -> num -> num;          (* x * y *)
  div : num -> num -> num;          (* x / y *)
  sqrt : num -> num;                (* Math.sqrt(x) *)
  sign : num -> num;                (* Math.sign(x) *)
  ltb : num -> num -> bool          (* x < y *)
}.

(** ** Array helpers of the host language *)

Section ArrayOps.
Context {A B : Type}.

(** [a.reduce((acc, value, index) => f(acc, value, index), init)] *)
Fixpoint reduce_from (f : B -> A -> nat -> B) (i : nat) (l : list A) (acc : B) : B :=
  match l with
  | [] => acc
  | value :: l' => reduce_from f (S i) l' (f acc value i)
  end.

Definition reduce (f : B -> A -> nat -> B) (l : list A) (init : B) : B :=
  reduce_from f 0 l init.

(** [a.map((value, index) => f(value, index))] *)
Fixpoint mapi_from (f : A -> nat -> B) (i : nat) (l : list A) : list B :=
  match l with
  | [] => []
  | value :: l' => f value i :: mapi_from f (S i) l'
  end.

Definition mapi (f : A -> nat -> B) (l : list A) : list B := mapi_from f 0 l.
End ArrayOps.

(** ** The calculator, generic in the arithmetic *)

Section Calculator.
Context {num : Type} `{Number num}.

Definition vec := list num.
Definition matrix := list vec.

(** [b[index]]: [None] is [undefined], the value of an out-of-range read. *)
Definition get (b : vec) (index : nat) : option num := nth_error b index.

(** The numeric conversion applied to an operand of [+], [-] or [*]. *)
Definition ToNumber (o : option num) : num :=
  match o with
  | Some x => x
  | None => nan
  end.

Definition dotProduct (a b : vec) : num :=
  reduce (fun sum value index => add sum (mul value (ToNumber (get b index)))) a zero.

Definition vectorNormalize (v : vec) : vec :=
  let norm := sqrt (reduce (fun sum value _ => add sum (mul value value)) v zero) in
  map (fun value => div value norm) v.

Definition matrixVectorMultiply (m : matrix) (vector : vec) : vec :=
  map (fun row => dotProduct row vector) m.

(** The value returned by [powerIteration]: an object with one field. *)
Record result := { eigenvector : vec }.

(** Steps 2 to 4 of the loop body. *)
Definition biased (A : matrix) (b r_k : vec) : vec :=
  mapi (fun value index => add value (ToNumber (get b index)))
       (matrixVectorMultiply A r_k).

Definition signed (y_k1 r_k : vec) : vec :=
  let mu := dotProduct y_k1 r_k in
  map (fun value => mul (sign mu) value) y_k1.

Definition next (A : matrix) (b r_k : vec) : vec :=
  let y_k1 := biased A b r_k in
  vectorNormalize (signed y_k1 r_k).

(** Step 5: the convergence test. *)
Definition delta (r_k1 r_k : vec) : vec :=
  mapi (fun value index => sub value (ToNumber (get r_k index))) r_k1.

Definition close (tol : num) (r_k1 r_k : vec) : bool :=
  ltb (sqrt (dotProduct (delta r_k1 r_k) (delta r_k1 r_k))) tol.

(** The [for] loop, [n] iterations left. *)
Fixpoint iterate (A : matrix) (b : vec) (tol : num) (n : nat) (r_k : vec) : result :=
  match n with
  | O => {| eigenvector := r_k |}
  | S n' =>
      let r_k1 := next A b r_k in
      if close tol r_k1 r_k then {| eigenvector := r_k1 |}
      else iterate A b tol n' r_k1
  end.

(** [nIter] is taken to be a natural number: the callers pass [1000].
    [rng] is the injected source of the initial vector. *)
Definition powerIteration (A : matrix) (b : vec) (nIter : nat) (tol : num)
    (rng : unit -> vec) : result :=
  let r_k := rng tt in
  let r_k := vectorNormalize r_k in
  iterate A b tol nIter r_k.

(** *** The same run, observed

    [iterate] returns only the vector.  [observe] follows the same loop and
    also records what a caller cannot see: how many times the body ran, by
    which [return] the function left, and every vector handed to
    [vectorNormalize], in order. *)

Inductive exit := Converged | Exhausted.

Record run := {
  returned : vec;
  steps : nat;
  left_by : exit;
  normalized : list vec
}.

Definition normOf (v : vec) : num :=
  sqrt (reduce (fun sum value _ => add sum (mul value value)) v zero).

Fixpoint observe (A : matrix) (b : vec) (tol : num) (n : nat) (r_k : vec) : run :=
  match n with
  | O => {| returned := r_k; steps := 0; left_by := Exhausted; normalized := [] |}
  | S n' =>
      let y_k1 := biased A b r_k in
      let r_k1 := vectorNormalize (signed y_k1 r_k) in
      if close tol r_k1 r_k then
        {| returned := r_k1; steps := 1; left_by := Converged;
           normalized := [signed y_k1 r_k] |}
      else
        let t := observe A b tol n' r_k1 in
        {| returned := returned t; steps := S (steps t); left_by := left_by t;
           normalized := signed y_k1 r_k :: normalized t |}
  end.

Definition powerIteration_run (A : matrix) (b : vec) (nIter : nat) (tol : num)
    (rng : unit -> vec) : run :=
  let r_k := rng tt in
  let t := observe A b tol nIter (vectorNormalize r_k) in
  {| returned := returned t; steps := steps t; left_by := left_by t;
     normalized := r_k :: normalized t |}.


(** The mathematical sequence of iterates: [iterates A b r0 i] is [r_i]. *)
Fixpoint iterates (A : matrix) (b r0 : vec) (i : nat) : vec :=
  match i with
  | O => r0
  | S i' => next A b (iterates A b r0 i')
  end.
End Calculator.

(** ** IEEE 754 binary64 *)

Module F64.
(** The type of the host language's numbers. *)
Abbreviation f64 := spec_float.

Definition one : f64 := Eval vm_compute in Prim2SF 1%float.

(** [Math.sign]: NaN and both zeros are returned as they are. *)
Definition SFsign (x : f64) : f64 :=
  match x with
  | S754_nan => S754_nan
  | S754_zero s => S754_zero s
  | S754_infinity s | S754_finite s _ _ => if s then SFopp one else one
  end.

#[export] Instance binary64 : Number f64 := {|
  zero := S754_zero false;
  nan := S754_nan;
  add := SFadd prec emax;
  sub := SFsub prec emax;
  mul := SFmul prec emax;
  div := SFdiv prec emax;
  sqrt := SFsqrt prec emax;
  sign := SFsign;
  ltb := SFltb
|}.

(** Decimal literals, rounded to the nearest double as the host language
    reads them. *)
Definition lit (f : float) : f64 := Prim2SF f.


Definition is_zero (x : f64) : bool :=
  match x with
  | S754_zero _ => true
  | _ => false
  end.

(** Neither NaN nor an infinity. *)
Definition finite (x : f64) : bool :=
  match x with
  | S754_zero _ | S754_finite _ _ _ => true
  | _ => false
  end.





End F64.
Import F64.

(** ** The graphs of the specification's scenarios *)

(** Two nodes joined by an edge of weight 1. *)
Definition pair_graph : list (list f64) :=
  [[lit 0; lit 1];
   [lit 1; lit 0]].






(** The vectors of [N] zeros and of [N] NaNs, and the [N] by [N] zero
    matrix. *)
Abbreviation zeros N := (repeat (S754_zero false) N).
Abbreviation nans N := (repeat S754_nan N).
Abbreviation zero_matrix N := (repeat (zeros N) N).



(** ** Exact arithmetic

    The reals with one error value [NaR], which division by zero and the square
    root of a negative number produce and every operation propagates (it stands
    for NaN and for the infinities alike). *)

Module Exact.










End Exact.
Import Exact.


(** ** Arrays as objects

    The source works on arrays, which are objects with an identity.  To speak
    about what a call leaves untouched, the same code is read once more over a
    store.  The array methods take callbacks that run on the store: [map]
    reads its array, runs the callback on every element and allocates a new
    array for the results; [reduce] and indexing only read.  An array method
    reads the elements of its array once, before the first callback. *)

Section Store.
Context {num : Type} `{Number num}.

Definition loc := positive.

(** [number[]] and [number[][]]. *)
Inductive object :=
  | NumArray (elems : list num)
  | RowArray (rows : list loc).

(** Computations on the store; [None] is a read of the wrong kind of object. *)
Definition M (X : Type) : Type := gmap loc object -> option (X * gmap loc object).

#[export] Instance M_ret : MRet M := fun X x h => Some (x, h).

#[export] Instance M_bind : MBind M := fun X Y k c h =>
  match c h with
  | Some (x, h') => k x h'
  | None => None
  end.

Definition alloc (o : object) : M loc := fun h =>
  let l := fresh (dom h) in Some (l, <[l := o]> h).

Definition readNums (l : loc) : M (list num) := fun h =>
  match h !! l with
  | Some (NumArray v) => Some (v, h)
  | _ => None
  end.

Definition readRows (l : loc) : M (list loc) := fun h =>
  match h !! l with
  | Some (RowArray rows) => Some (rows, h)
  | _ => None
  end.

(** [a[index]] *)
Definition getH (a : loc) (index : nat) : M (option num) := fun h =>
  match h !! a with
  | Some (NumArray v) => Some (get v index, h)
  | _ => None
  end.

(** [a.reduce(f, init)]: the callback runs on the store, element after
    element. *)
Fixpoint reduceH_from (f : num -> num -> nat -> M num) (i : nat) (xs : list num)
    (acc : num) : M num :=
  match xs with
  | [] => mret acc
  | value :: xs' => acc' ← f acc value i; reduceH_from f (S i) xs' acc'
  end.

Definition reduceH (f : num -> num -> nat -> M num) (a : loc) (init : num) : M num :=
  xs ← readNums a; reduceH_from f 0 xs init.

(** [a.map(f)]: the callback runs on the store, element after element, and
    the results go to a new array. *)
Fixpoint mapH_from (f : num -> nat -> M num) (i : nat) (xs : list num) : M (list num) :=
  match xs with
  | [] => mret []
  | value :: xs' => y ← f value i; ys ← mapH_from f (S i) xs'; mret (y :: ys)
  end.

Definition mapH (f : num -> nat -> M num) (a : loc) : M loc :=
  xs ← readNums a; ys ← mapH_from f 0 xs; alloc (NumArray ys).

(** [matrix.map(f)], on an array of rows. *)
Fixpoint forEach (f : loc -> M num) (rows : list loc) : M (list num) :=
  match rows with
  | [] => mret []
  | row :: rows' => y ← f row; ys ← forEach f rows'; mret (y :: ys)
  end.

Definition mapRowsH (f : loc -> M num) (m : loc) : M loc :=
  rows ← readRows m; ys ← forEach f rows; alloc (NumArray ys).

Definition dotProductH (a b : loc) : M num :=
  reduceH (fun sum value index =>
             bi ← getH b index; mret (add sum (mul value (ToNumber bi))))
          a zero.

Definition vectorNormalizeH (v : loc) : M loc :=
  s ← reduceH (fun sum value _ => mret (add sum (mul value value))) v zero;
  let norm := sqrt s in
  mapH (fun value _ => mret (div value norm)) v.

Definition matrixVectorMultiplyH (m vector : loc) : M loc :=
  mapRowsH (fun row => dotProductH row vector) m.

Definition biasedH (A b r_k : loc) : M loc :=
  av ← matrixVectorMultiplyH A r_k;
  mapH (fun value index => bi ← getH b index; mret (add value (ToNumber bi))) av.

Definition signedH (y_k1 r_k : loc) : M loc :=
  mu ← dotProductH y_k1 r_k;
  mapH (fun value _ => mret (mul (sign mu) value)) y_k1.

Definition deltaH (r_k1 r_k : loc) : M loc :=
  mapH (fun value index => ri ← getH r_k index; mret (sub value (ToNumber ri))) r_k1.

Fixpoint iterateH (A b : loc) (tol : num) (n : nat) (r_k : loc) : M loc :=
  match n with
  | O => mret r_k
  | S n' =>
      y_k1 ← biasedH A b r_k;
      z ← signedH y_k1 r_k;
      r_k1 ← vectorNormalizeH z;
      d1 ← deltaH r_k1 r_k;
      d2 ← deltaH r_k1 r_k;
      n2 ← dotProductH d1 d2;
      if ltb (sqrt n2) tol then mret r_k1 else iterateH A b tol n' r_k1
  end.

(** [rng] is any computation that hands back an array. *)
Definition powerIterationH (A b : loc) (nIter : nat) (tol : num) (rng : M loc) : M loc :=
  r_k ← rng;
  r_k ← vectorNormalizeH r_k;
  iterateH A b tol nIter r_k.

(** The matrix an array of rows denotes in a store. *)
Fixpoint rowsIn (h : gmap loc object) (rows : list loc) : option (list (list num)) :=
  match rows with
  | [] => Some []
  | r :: rows' =>
      match h !! r, rowsIn h rows' with
      | Some (NumArray v), Some m => Some (v :: m)
      | _, _ => None
      end
  end.

(** [c] allocates one array holding [v] and changes nothing else. *)
Definition allocates (c : M loc) (h : gmap loc object) (v : list num) : Prop :=
  exists l, c h = Some (l, <[l := NumArray v]> h) /\ h !! l = None.

(** [c] returns a new array holding [v]; every object of [h] is still there,
    unchanged. *)
Definition produces (c : M loc) (h : gmap loc object) (v : list num) : Prop :=
  exists l h', c h = Some (l, h') /\ h ⊆ h' /\ h !! l = None
               /\ h' !! l = Some (NumArray v).
End Store.

(** The pair graph as objects: the matrix at address 1, its rows at 2 and 3,
    and a zero bias vector at 4. *)
Definition pair_store : gmap loc (object (num := f64)) :=
  <[1%positive := RowArray [2%positive; 3%positive]]>
  (<[2%positive := NumArray [lit 0; lit 1]]>
  (<[3%positive := NumArray [lit 1; lit 0]]>
  (<[4%positive := NumArray [lit 0; lit 0]]> ∅))).

(** * Properties *)

(** ** The loop, whatever the arithmetic *)

Section LoopFacts.
Context {num : Type} `{Number num}.
Implicit Types (A : list (list num)) (b r_k : list num) (tol : num).

Lemma observe_returned A b tol n r_k :
  returned (observe A b tol n r_k) = eigenvector (iterate A b tol n r_k).
Proof.
  revert r_k; induction n as [|n IH]; intros r_k; simpl; [reflexivity|].
  fold (next A b r_k).
  destruct (close tol (next A b r_k) r_k); simpl; [reflexivity|apply IH].
Qed.

Lemma run_returned A b nIter tol rng :
  returned (powerIteration_run A b nIter tol rng)
  = eigenvector (powerIteration A b nIter tol rng).
Proof. apply observe_returned. Qed.


(** The iterates from [r_k], from the second on, are the iterates from
    [next A b r_k]. *)
Lemma iterates_shift A b r_k k :
  iterates A b r_k (S k) = iterates A b (next A b r_k) k.
Proof.
  induction k as [|k IHk]; [reflexivity|].
  change (next A b (iterates A b r_k (S k)) = next A b (iterates A b (next A b r_k) k)).
  now rewrite IHk.
Qed.


(** If no iterate is close to its predecessor the loop runs to its bound. *)
Lemma observe_exhausted A b tol n r_k :
  (forall j, j < n ->
     close tol (iterates A b r_k (S j)) (iterates A b r_k j) = false) ->
  let t := observe A b tol n r_k in
  returned t = iterates A b r_k n /\ steps t = n /\ left_by t = Exhausted.
Proof.
  revert r_k; induction n as [|n IH]; intros r_k Hnot; [simpl; auto|].
  assert (H0 : close tol (next A b r_k) r_k = false) by (apply (Hnot 0); lia).
  cbn [observe]. fold (next A b r_k). rewrite H0.
  pose proof (iterates_shift A b r_k) as Hshift.
  destruct (IH (next A b r_k)) as (Hr & Hs & Hl).
  - intros j Hj. rewrite <- !Hshift. apply Hnot. lia.
  - cbn [returned steps left_by]. rewrite Hr, Hs, Hl, <- Hshift. auto.
Qed.



End LoopFacts.

(** ** Binary64: signs

    Rounding to nearest even is symmetric about zero, so every operation of
    the code commutes with a change of sign, except that an exact zero result
    of [+] and [-] is [+0] whatever the signs of the operands. *)





























Lemma round_aux_not_negative m e l z :
  SFltb (binary_round_aux prec emax false m e l) (S754_zero z) = false.
Proof.
  unfold binary_round_aux.
  destruct (shr_fexp prec emax m e l) as [mrs' e'].
  destruct (shr_fexp prec emax _ e' loc_Exact) as [mrs'' e''].
  destruct (shr_m mrs''); try reflexivity.
  destruct (Z.leb _ _); reflexivity.
Qed.

Lemma SFsqrt_not_negative x z : SFltb (SFsqrt prec emax x) (S754_zero z) = false.
Proof.
  destruct x as [s|[]| |[] m e]; try reflexivity.
  simpl. destruct (SFsqrt_core_binary prec emax (Z.pos m) e) as [[mz ez] lz].
  apply round_aux_not_negative.
Qed.



(** ** Binary64: mirrored vectors *)
















(** ** The claims *)


Lemma close_zero_tol s (r1 r : list f64) : close (S754_zero s) r1 r = false.
Proof. apply SFsqrt_not_negative. Qed.

(** C3, as amended.  With [tolerance = 0] (of either sign) the test
    [norm < tolerance] never succeeds, because a square root is never below
    zero: the loop always runs [maxIterations] times and the function returns
    the iterate of that index, also when a step changes nothing. *)
Theorem tolerance_zero_runs_to_bound (A : list (list f64)) (b : list f64)
    (nIter : nat) (s : bool) (rng : unit -> list f64) :
  let t := powerIteration_run A b nIter (S754_zero s) rng in
  steps t = nIter /\ left_by t = Exhausted
  /\ eigenvector (powerIteration A b nIter (S754_zero s) rng)
     = iterates A b (vectorNormalize (rng tt)) nIter.
Proof.
  intros t.
  destruct (observe_exhausted A b (S754_zero s) nIter (vectorNormalize (rng tt)))
    as (Hr & Hs & Hl).
  - intros j _. apply close_zero_tol.
  - rewrite <- run_returned. auto.
Qed.

(** C3, the claim as stated fails: on the one-node graph with a self-loop the
    first step changes nothing (the delta is exactly [+0]), and with
    [tolerance = 0] the loop still runs all three iterations. *)
Lemma tolerance_zero_ignores_zero_delta :
  delta (iterates [[lit 1]] [lit 0] (vectorNormalize [lit 1]) 1)
        (iterates [[lit 1]] [lit 0] (vectorNormalize [lit 1]) 0) = [S754_zero false]
  /\ steps (powerIteration_run [[lit 1]] [lit 0] 3 (lit 0) (fun _ => [lit 1])) = 3
  /\ left_by (powerIteration_run [[lit 1]] [lit 0] 3 (lit 0) (fun _ => [lit 1])) = Exhausted.
Proof. vm_compute. auto. Qed.








(** ** Binary64: the zero matrix *)

Lemma add_nan_r (x : f64) : add x S754_nan = S754_nan.
Proof. now destruct x. Qed.

Lemma mul_nan_r (x : f64) : mul x S754_nan = S754_nan.
Proof. now destruct x. Qed.

Lemma mul_nan_l (x : f64) : mul S754_nan x = S754_nan.
Proof. now destruct x. Qed.

Lemma get_Forall {X : Type} (P : X -> Prop) (l : list X) i :
  Forall P l -> i < length l -> exists x, nth_error l i = Some x /\ P x.
Proof.
  intros Hl; revert i; induction Hl as [|x l Hx Hl IH]; intros [|i] Hi; simpl in *;
    try lia; eauto.
  apply IH. lia.
Qed.

Lemma get_repeat {X : Type} (x : X) n i : i < n -> nth_error (repeat x n) i = Some x.
Proof.
  revert i; induction n as [|n IH]; intros [|i] Hi; simpl; try lia; auto.
  apply IH. lia.
Qed.

(** Once the running sum of a dot product is NaN it stays NaN. *)
Lemma dot_from_nan (b a : list f64) i :
  reduce_from (fun sum value index => add sum (mul value (ToNumber (get b index))))
    i a S754_nan = S754_nan.
Proof. revert i; induction a as [|x a IH]; intros i; simpl; auto. Qed.

Lemma squares_from_nan (a : list f64) i :
  reduce_from (fun sum value (_ : nat) => add sum (mul value value)) i a S754_nan
  = S754_nan.
Proof. revert i; induction a as [|x a IH]; intros i; simpl; auto. Qed.

Lemma zero_row_term (x : f64) :
  finite x = true ->
  add (S754_zero false : f64) (mul (S754_zero false) x) = S754_zero false.
Proof. destruct x as [[]| | |[] ? ?]; simpl; congruence. Qed.

(** A row of zeros against a vector of finite numbers gives [+0]. *)
Lemma dot_from_zeros (r : list f64) k i :
  Forall (fun x => finite x = true) r -> i + k <= length r ->
  reduce_from (fun sum value index => add sum (mul value (ToNumber (get r index))))
    i (repeat (S754_zero false) k) (S754_zero false) = S754_zero false.
Proof.
  intros Hr; revert i; induction k as [|k IH]; intros i Hi; [reflexivity|].
  destruct (get_Forall _ r i Hr) as (x & Hx & Fx); [lia|].
  change (get r i = Some x) in Hx.
  cbn [repeat reduce_from]. rewrite Hx. cbn [ToNumber].
  rewrite (zero_row_term x Fx). apply IH. lia.
Qed.

Lemma dotProduct_zeros (r : list f64) k :
  Forall (fun x => finite x = true) r -> k <= length r ->
  dotProduct (repeat (S754_zero false) k) r = S754_zero false.
Proof. intros Hr Hk. now apply dot_from_zeros. Qed.

(** A dot product with a NaN in its first term is NaN. *)
Lemma dotProduct_nans_l (r : list f64) k :
  dotProduct (repeat S754_nan (S k)) r = S754_nan.
Proof.
  unfold dotProduct, reduce. cbn [repeat reduce_from].
  rewrite mul_nan_l, add_nan_r. apply dot_from_nan.
Qed.

Lemma dotProduct_nans_r (a : list f64) x k :
  dotProduct (x :: a) (repeat S754_nan (S k)) = S754_nan.
Proof.
  unfold dotProduct, reduce. cbn [reduce_from].
  change (get (repeat S754_nan (S k)) 0) with (Some S754_nan). cbn [ToNumber].
  rewrite mul_nan_r, add_nan_r. apply dot_from_nan.
Qed.

Lemma mapi_from_repeat {X Y : Type} (f : X -> nat -> Y) (x : X) (y : Y) k i :
  (forall j, i <= j < i + k -> f x j = y) ->
  mapi_from f i (repeat x k) = repeat y k.
Proof.
  revert i; induction k as [|k IH]; intros i Hf; simpl; [reflexivity|].
  rewrite Hf by lia. f_equal. apply IH. intros j Hj. apply Hf. lia.
Qed.

Lemma map_repeat_const {X Y : Type} (f : X -> Y) (x : X) k :
  map f (repeat x k) = repeat (f x) k.
Proof. induction k as [|k IH]; simpl; congruence. Qed.

Lemma squares_from_zeros k i :
  reduce_from (fun sum value (_ : nat) => add sum (mul value value)) i
    (repeat (S754_zero false) k) (S754_zero false) = S754_zero false.
Proof. revert i; induction k as [|k IH]; intros i; [reflexivity|apply IH]. Qed.


Lemma normOf_zeros N : normOf (zeros N) = S754_zero false.
Proof. unfold normOf, reduce. now rewrite squares_from_zeros. Qed.

Lemma normOf_nans N : 1 <= N -> normOf (nans N) = S754_nan.
Proof.
  intros HN. destruct N as [|k]; [lia|].
  unfold normOf, reduce. cbn [repeat reduce_from].
  now rewrite mul_nan_l, add_nan_r, squares_from_nan.
Qed.

Lemma vectorNormalize_zeros N : vectorNormalize (zeros N) = nans N.
Proof.
  change (map (fun value : f64 => div value (normOf (zeros N))) (zeros N) = nans N).
  rewrite normOf_zeros. now rewrite map_repeat_const.
Qed.

Lemma vectorNormalize_nans N : vectorNormalize (nans N) = nans N.
Proof. unfold vectorNormalize. now rewrite map_repeat_const. Qed.

Lemma close_nans N tol (r : list f64) : 1 <= N -> close tol (nans N) r = false.
Proof.
  intros HN. unfold close.
  assert (Hd : delta (nans N) r = nans N).
  { unfold delta, mapi. now apply mapi_from_repeat. }
  rewrite Hd. destruct N as [|k]; [lia|].
  now rewrite dotProduct_nans_l.
Qed.

(** The first iteration: from a vector of finite numbers. *)
Lemma biased_zero_matrix_finite N (r : list f64) :
  Forall (fun x => finite x = true) r -> length r = N ->
  biased (zero_matrix N) (zeros N) r = zeros N.
Proof.
  intros Hr Hlen. unfold biased, matrixVectorMultiply. rewrite map_repeat_const.
  rewrite dotProduct_zeros by (auto; lia).
  unfold mapi. apply mapi_from_repeat. intros j Hj.
  unfold get. now rewrite get_repeat by lia.
Qed.

Lemma signed_zero_matrix_finite N (r : list f64) :
  Forall (fun x => finite x = true) r -> length r = N ->
  signed (biased (zero_matrix N) (zeros N) r) r = zeros N.
Proof.
  intros Hr Hlen. rewrite biased_zero_matrix_finite by assumption.
  unfold signed. rewrite dotProduct_zeros by (auto; lia).
  now rewrite map_repeat_const.
Qed.

(** Every later iteration: from the vector of NaNs. *)
Lemma biased_zero_matrix_nans N :
  1 <= N -> biased (zero_matrix N) (zeros N) (nans N) = nans N.
Proof.
  intros HN. unfold biased, matrixVectorMultiply. rewrite map_repeat_const.
  assert (Hd : dotProduct (zeros N) (nans N) = S754_nan).
  { destruct N as [|k]; [lia|]. apply dotProduct_nans_r. }
  rewrite Hd. unfold mapi. now apply mapi_from_repeat.
Qed.

Lemma signed_zero_matrix_nans N :
  1 <= N -> signed (biased (zero_matrix N) (zeros N) (nans N)) (nans N) = nans N.
Proof.
  intros HN. rewrite biased_zero_matrix_nans by assumption.
  unfold signed. rewrite map_repeat_const. now rewrite mul_nan_r.
Qed.

Lemma observe_nans N tol n :
  1 <= N ->
  observe (zero_matrix N) (zeros N) tol n (nans N)
  = {| returned := nans N; steps := n; left_by := Exhausted;
       normalized := repeat (nans N) n |}.
Proof.
  intros HN. induction n as [|n IH]; [reflexivity|].
  cbn [observe].
  rewrite signed_zero_matrix_nans, vectorNormalize_nans, close_nans, IH by assumption.
  reflexivity.
Qed.

Lemma observe_zero_matrix N tol n (r : list f64) :
  1 <= N -> Forall (fun x => finite x = true) r -> length r = N ->
  observe (zero_matrix N) (zeros N) tol (S n) r
  = {| returned := nans N; steps := S n; left_by := Exhausted;
       normalized := zeros N :: repeat (nans N) n |}.
Proof.
  intros HN Hr Hlen. cbn [observe].
  rewrite (signed_zero_matrix_finite N r Hr Hlen), vectorNormalize_zeros.
  rewrite close_nans, observe_nans by assumption.
  reflexivity.
Qed.

(** C6, the claim as stated fails: on the one-node graph without edges the
    second iteration normalizes [[NaN]], not a zero vector, and divides by the
    norm NaN, not by zero. *)
Lemma zero_matrix_second_step_is_nan :
  normalized (powerIteration_run [[lit 0]] [lit 0] 2 (lit 0.01) (fun _ => [lit 1]))
  = [[lit 1]; [S754_zero false]; [S754_nan]]
  /\ normOf [S754_nan] = S754_nan
  /\ vectorNormalize [S754_zero false] = [S754_nan]
  /\ is_zero S754_nan = false.
Proof. vm_compute. repeat split. Qed.

(** C6, as amended.  On the [N] by [N] zero matrix with zero bias, started
    from a draw whose normalization is finite, the first iteration
    normalizes the zero vector, whose norm is [+0], so that each entry is
    [0/0], NaN; every later iteration normalizes the vector of NaNs, whose norm
    is NaN.  The test never succeeds, and the vector of NaNs is returned. *)
Theorem zero_matrix_run (N nIter : nat) (tol : f64) (rng : unit -> list f64) :
  1 <= N -> length (rng tt) = N ->
  Forall (fun x => finite x = true) (vectorNormalize (rng tt)) ->
  let t := powerIteration_run (zero_matrix N) (zeros N) (S nIter) tol rng in
  normalized t = rng tt :: zeros N :: repeat (nans N) nIter
  /\ normOf (zeros N) = S754_zero false
  /\ vectorNormalize (zeros N) = nans N
  /\ normOf (nans N) = S754_nan
  /\ steps t = S nIter /\ left_by t = Exhausted
  /\ eigenvector (powerIteration (zero_matrix N) (zeros N) (S nIter) tol rng) = nans N.
Proof.
  intros HN Hlen Hfin t.
  assert (Ht : observe (zero_matrix N) (zeros N) tol (S nIter) (vectorNormalize (rng tt))
               = {| returned := nans N; steps := S nIter; left_by := Exhausted;
                    normalized := zeros N :: repeat (nans N) nIter |}).
  { apply observe_zero_matrix; auto. unfold vectorNormalize. now rewrite length_map. }
  rewrite <- run_returned. unfold t, powerIteration_run. rewrite Ht.
  cbn [returned steps left_by normalized].
  repeat split; auto using normOf_zeros, vectorNormalize_zeros, normOf_nans.
Qed.

(** C6 at a concrete input: three nodes, five iterations. *)
Lemma zero_matrix_run_witness :
  normalized (powerIteration_run (zero_matrix 3) (zeros 3) 5 (lit 0.01)
                (fun _ => [lit 0.3; lit 0.5; lit 0.2]))
  = [lit 0.3; lit 0.5; lit 0.2] :: zeros 3 :: repeat (nans 3) 4
  /\ normOf (zeros 3) = S754_zero false
  /\ vectorNormalize (zeros 3) = nans 3
  /\ normOf (nans 3) = S754_nan
  /\ steps (powerIteration_run (zero_matrix 3) (zeros 3) 5 (lit 0.01)
              (fun _ => [lit 0.3; lit 0.5; lit 0.2])) = 5
  /\ left_by (powerIteration_run (zero_matrix 3) (zeros 3) 5 (lit 0.01)
                (fun _ => [lit 0.3; lit 0.5; lit 0.2])) = Exhausted
  /\ eigenvector (powerIteration (zero_matrix 3) (zeros 3) 5 (lit 0.01)
                    (fun _ => [lit 0.3; lit 0.5; lit 0.2])) = nans 3.
Proof.
  apply (zero_matrix_run 3 4 (lit 0.01) (fun _ => [lit 0.3; lit 0.5; lit 0.2])).
  - lia.
  - reflexivity.
  - vm_compute. repeat constructor.
Defined.

(** ** Exact arithmetic: the norm of the result *)

Section ExactFacts.
Local Open Scope R_scope.

















(** *** The pair graph in exact arithmetic *)




End ExactFacts.






(** ** The store: what a call leaves untouched *)

Section StoreFacts.
Context {num : Type} `{Number num}.
Implicit Types (h : gmap loc (object (num := num))) (l : loc).

Lemma bind_Some {X Y : Type} (c : M X) (k : X -> M Y) h x h' :
  c h = Some (x, h') -> (c ≫= k) h = k x h'.
Proof. intros Hc. unfold mbind, M_bind. now rewrite Hc. Qed.

Lemma readNums_Some h l v : h !! l = Some (NumArray v) -> readNums l h = Some (v, h).
Proof. intros Hl. unfold readNums. now rewrite Hl. Qed.

Lemma readRows_Some h l rows :
  h !! l = Some (RowArray rows) -> readRows l h = Some (rows, h).
Proof. intros Hl. unfold readRows. now rewrite Hl. Qed.

Lemma alloc_allocates h v : allocates (alloc (NumArray v)) h v.
Proof.
  exists (fresh (dom h)). split; [reflexivity|].
  apply not_elem_of_dom, is_fresh.
Qed.

Lemma allocates_grows (c : M loc) h v l h' :
  c h = Some (l, h') -> allocates c h v ->
  h ⊆ h' /\ h !! l = None /\ h' !! l = Some (NumArray v).
Proof.
  intros Hc (l0 & Hc0 & Hfresh). rewrite Hc in Hc0. injection Hc0 as -> ->.
  split; [now apply insert_subseteq|]. split; [exact Hfresh|apply lookup_insert_eq].
Qed.

Lemma rowsIn_weaken h h' rows (m : list (list num)) :
  h ⊆ h' -> rowsIn h rows = Some m -> rowsIn h' rows = Some m.
Proof.
  intros Hsub; revert m; induction rows as [|r rows IH]; intros m; simpl; [auto|].
  destruct (h !! r) as [[v|]|] eqn:Hr; try discriminate.
  destruct (rowsIn h rows) as [m'|]; try discriminate.
  intros Hm. rewrite (lookup_weaken _ _ _ _ Hr Hsub), (IH m' eq_refl). exact Hm.
Qed.

Lemma getH_Some h a v i : h !! a = Some (NumArray v) -> getH a i h = Some (get v i, h).
Proof. intros Ha. unfold getH. now rewrite Ha. Qed.

(** A callback that only reads leaves the store as it is: the array method
    then computes what it computes on values. *)
Lemma reduceH_from_reads (f : num -> num -> nat -> M num) (g : num -> num -> nat -> num)
    h i xs acc :
  (forall acc value index, f acc value index h = Some (g acc value index, h)) ->
  reduceH_from f i xs acc h = Some (reduce_from g i xs acc, h).
Proof.
  intros Hf; revert i acc; induction xs as [|x xs IH]; intros i acc; simpl; [reflexivity|].
  rewrite (bind_Some _ _ _ _ _ (Hf acc x i)). apply IH.
Qed.

Lemma mapH_from_reads (f : num -> nat -> M num) (g : num -> nat -> num) h i xs :
  (forall value index, f value index h = Some (g value index, h)) ->
  mapH_from f i xs h = Some (mapi_from g i xs, h).
Proof.
  intros Hf; revert i; induction xs as [|x xs IH]; intros i; simpl; [reflexivity|].
  rewrite (bind_Some _ _ _ _ _ (Hf x i)), (bind_Some _ _ _ _ _ (IH (S i))). reflexivity.
Qed.

Lemma mapi_from_map {X Y : Type} (g : X -> Y) i (xs : list X) :
  mapi_from (fun value _ => g value) i xs = map g xs.
Proof. revert i; induction xs as [|x xs IH]; intros i; simpl; [reflexivity|]. now rewrite IH. Qed.

Lemma mapH_allocates (f : num -> nat -> M num) (g : num -> nat -> num) h a xs :
  h !! a = Some (NumArray xs) ->
  (forall value index, f value index h = Some (g value index, h)) ->
  allocates (mapH f a) h (mapi g xs).
Proof.
  intros Ha Hf. unfold allocates, mapH.
  setoid_rewrite (bind_Some _ _ _ _ _ (readNums_Some _ _ _ Ha)).
  setoid_rewrite (bind_Some _ _ _ _ _ (mapH_from_reads f g h 0 xs Hf)).
  apply alloc_allocates.
Qed.

Lemma dotProductH_Some h a b va vb :
  h !! a = Some (NumArray va) -> h !! b = Some (NumArray vb) ->
  dotProductH a b h = Some (dotProduct va vb, h).
Proof.
  intros Ha Hb. unfold dotProductH, reduceH.
  rewrite (bind_Some _ _ _ _ _ (readNums_Some _ _ _ Ha)).
  apply reduceH_from_reads. intros acc value index.
  now rewrite (bind_Some _ _ _ _ _ (getH_Some _ _ _ index Hb)).
Qed.

Lemma forEach_rows h rows (m : list (list num)) vector r :
  rowsIn h rows = Some m -> h !! vector = Some (NumArray r) ->
  forEach (fun row => dotProductH row vector) rows h
  = Some (matrixVectorMultiply m r, h).
Proof.
  intros Hrows Hv; revert m Hrows; induction rows as [|row rows IH]; intros m; simpl.
  - now intros [= <-].
  - destruct (h !! row) as [[v|]|] eqn:Hrow; try discriminate.
    destruct (rowsIn h rows) as [m'|]; try discriminate. intros [= <-].
    rewrite (bind_Some _ _ _ _ _ (dotProductH_Some _ _ _ _ _ Hrow Hv)).
    rewrite (bind_Some _ _ _ _ _ (IH m' eq_refl)). reflexivity.
Qed.

Lemma vectorNormalizeH_allocates h v xs :
  h !! v = Some (NumArray xs) -> allocates (vectorNormalizeH v) h (vectorNormalize xs).
Proof.
  intros Hv. unfold vectorNormalizeH, reduceH.
  assert (Hs : (readNums v ≫= fun xs0 =>
                  reduceH_from (fun sum value (_ : nat) => mret (add sum (mul value value)))
                    0 xs0 zero) h
               = Some (reduce (fun sum value (_ : nat) => add sum (mul value value)) xs zero, h)).
  { rewrite (bind_Some _ _ _ _ _ (readNums_Some _ _ _ Hv)).
    now apply reduceH_from_reads. }
  unfold allocates. setoid_rewrite (bind_Some _ _ _ _ _ Hs).
  unfold vectorNormalize. rewrite <- (mapi_from_map _ 0).
  now apply mapH_allocates.
Qed.

Lemma allocates_produces (c : M loc) h v : allocates c h v -> produces c h v.
Proof.
  intros (l & Hc & Hfresh). exists l, (<[l := NumArray v]> h).
  split; [exact Hc|]. now apply (allocates_grows c h v); [|exists l].
Qed.

Lemma produces_after (c : M loc) h0 h v :
  h0 ⊆ h -> produces c h v ->
  exists l h', c h = Some (l, h') /\ h ⊆ h' /\ h0 ⊆ h' /\ h0 !! l = None
               /\ h !! l = None /\ h' !! l = Some (NumArray v).
Proof.
  intros Hsub (l & h' & Hc & Hgrow & Hfresh & Hl). exists l, h'.
  repeat split; auto; [now transitivity h|now apply (lookup_weaken_None h0 h)].
Qed.

Lemma vectorNormalizeH_produces h v xs :
  h !! v = Some (NumArray xs) -> produces (vectorNormalizeH v) h (vectorNormalize xs).
Proof. intros Hv. now apply allocates_produces, vectorNormalizeH_allocates. Qed.

Lemma matrixVectorMultiplyH_produces h A rows (m : list (list num)) vector r :
  h !! A = Some (RowArray rows) -> rowsIn h rows = Some m ->
  h !! vector = Some (NumArray r) ->
  produces (matrixVectorMultiplyH A vector) h (matrixVectorMultiply m r).
Proof.
  intros HA Hrows Hv. apply allocates_produces.
  unfold allocates, matrixVectorMultiplyH, mapRowsH.
  setoid_rewrite (bind_Some _ _ _ _ _ (readRows_Some _ _ _ HA)).
  setoid_rewrite (bind_Some _ _ _ _ _ (forEach_rows _ _ _ _ _ Hrows Hv)).
  apply alloc_allocates.
Qed.

Lemma biasedH_produces h A rows (m : list (list num)) b bv r_k r :
  h !! A = Some (RowArray rows) -> rowsIn h rows = Some m ->
  h !! b = Some (NumArray bv) -> h !! r_k = Some (NumArray r) ->
  produces (biasedH A b r_k) h (biased m bv r).
Proof.
  intros HA Hrows Hb Hr.
  destruct (matrixVectorMultiplyH_produces h A rows m r_k r HA Hrows Hr)
    as (l1 & h1 & Hc1 & Hsub1 & Hfresh1 & Hl1).
  pose proof (lookup_weaken _ _ _ _ Hb Hsub1) as Hb1.
  destruct (produces_after
              (mapH (fun value index =>
                       bi ← getH b index; mret (add value (ToNumber bi))) l1)
              h h1 (biased m bv r) Hsub1)
    as (l2 & h2 & Hc2 & _ & Hsub2 & Hfresh2 & _ & Hl2).
  { apply allocates_produces.
    apply (mapH_allocates _ (fun value index => add value (ToNumber (get bv index))));
      [exact Hl1|].
    intros value index. now rewrite (bind_Some _ _ _ _ _ (getH_Some _ _ _ index Hb1)). }
  exists l2, h2. repeat split; auto.
  unfold biasedH. rewrite (bind_Some _ _ _ _ _ Hc1). exact Hc2.
Qed.

Lemma signedH_produces h y_k1 yv r_k r :
  h !! y_k1 = Some (NumArray yv) -> h !! r_k = Some (NumArray r) ->
  produces (signedH y_k1 r_k) h (signed yv r).
Proof.
  intros Hy Hr. apply allocates_produces. unfold allocates, signedH.
  setoid_rewrite (bind_Some _ _ _ _ _ (dotProductH_Some _ _ _ _ _ Hy Hr)).
  unfold signed. rewrite <- (mapi_from_map _ 0).
  now apply mapH_allocates.
Qed.

Lemma deltaH_produces h r_k1 xs r_k r :
  h !! r_k1 = Some (NumArray xs) -> h !! r_k = Some (NumArray r) ->
  produces (deltaH r_k1 r_k) h (delta xs r).
Proof.
  intros H1 Hr. apply allocates_produces.
  apply (mapH_allocates _ (fun value index => sub value (ToNumber (get r index))));
    [exact H1|].
  intros value index. now rewrite (bind_Some _ _ _ _ _ (getH_Some _ _ _ index Hr)).
Qed.

(** The loop on the store computes what the loop on values computes, in a
    new array or, when it does not run, in the array it was given. *)
Lemma iterateH_result A rows (m : list (list num)) b bv tol n :
  forall h r_k r,
    h !! A = Some (RowArray rows) -> rowsIn h rows = Some m ->
    h !! b = Some (NumArray bv) -> h !! r_k = Some (NumArray r) ->
    exists res h',
      iterateH A b tol n r_k h = Some (res, h') /\ h ⊆ h'
      /\ (res = r_k \/ h !! res = None)
      /\ h' !! res = Some (NumArray (eigenvector (iterate m bv tol n r))).
Proof.
  induction n as [|n IH]; intros h r_k r HA Hrows Hb Hr.
  - exists r_k, h. repeat split; auto.
  - destruct (biasedH_produces h A rows m b bv r_k r HA Hrows Hb Hr)
      as (y & h1 & Hc1 & Hsub1 & _ & Hy).
    pose proof (lookup_weaken _ _ _ _ Hr Hsub1) as Hr1.
    destruct (produces_after _ h h1 _ Hsub1 (signedH_produces h1 y _ r_k r Hy Hr1))
      as (z & h2 & Hc2 & Hsub12 & Hsub2 & _ & _ & Hz).
    destruct (produces_after _ h h2 _ Hsub2 (vectorNormalizeH_produces h2 z _ Hz))
      as (r1 & h3 & Hc3 & Hsub23 & Hsub3 & Hfresh3 & _ & Hr1').
    pose proof (lookup_weaken _ _ _ _ Hr Hsub3) as Hr3.
    destruct (produces_after _ h h3 _ Hsub3 (deltaH_produces h3 r1 _ r_k r Hr1' Hr3))
      as (d1 & h4 & Hc4 & Hsub34 & Hsub4 & _ & _ & Hd1).
    pose proof (lookup_weaken _ _ _ _ Hr1' Hsub34) as Hr14.
    pose proof (lookup_weaken _ _ _ _ Hr Hsub4) as Hr4.
    destruct (produces_after _ h h4 _ Hsub4 (deltaH_produces h4 r1 _ r_k r Hr14 Hr4))
      as (d2 & h5 & Hc5 & Hsub45 & Hsub5 & _ & _ & Hd2).
    pose proof (lookup_weaken _ _ _ _ Hd1 Hsub45) as Hd15.
    pose proof (lookup_weaken _ _ _ _ Hr14 Hsub45) as Hr15.
    cbn [iterateH iterate].
    rewrite (bind_Some _ _ _ _ _ Hc1), (bind_Some _ _ _ _ _ Hc2).
    rewrite (bind_Some _ _ _ _ _ Hc3), (bind_Some _ _ _ _ _ Hc4).
    rewrite (bind_Some _ _ _ _ _ Hc5).
    rewrite (bind_Some _ _ _ _ _ (dotProductH_Some _ _ _ _ _ Hd15 Hd2)).
    fold (next m bv r). fold (close tol (next m bv r) r).
    destruct (close tol (next m bv r) r).
    + exists r1, h5. repeat split; auto.
    + destruct (IH h5 r1 (next m bv r)) as (res & h' & Hc & Hsub & Hres & Hl);
        eauto using lookup_weaken, rowsIn_weaken.
      exists res, h'. split; [exact Hc|]. split; [now transitivity h5|].
      split; [|exact Hl]. right.
      destruct Hres as [->|Hnone]; [exact Hfresh3|].
      now apply (lookup_weaken_None h h5).
Qed.

(** C8.  A call leaves every object that existed before it unchanged, in
    particular the matrix, its rows and the bias vector, and (when [rng] does
    the same) what [rng] left; the vector it returns is a new
    array, none of those that existed when [rng] returned, and holds what the
    function computes on values. *)
Theorem powerIteration_leaves_its_inputs h A rows (m : list (list num)) b bv
    (nIter : nat) (tol : num) (rng : M loc) l0 h0 draw :
  h !! A = Some (RowArray rows) -> rowsIn h rows = Some m ->
  h !! b = Some (NumArray bv) ->
  rng h = Some (l0, h0) -> h ⊆ h0 -> h0 !! l0 = Some (NumArray draw) ->
  exists res h',
    powerIterationH A b nIter tol rng h = Some (res, h')
    /\ h ⊆ h' /\ h0 ⊆ h'
    /\ h' !! A = Some (RowArray rows) /\ rowsIn h' rows = Some m
    /\ h' !! b = Some (NumArray bv)
    /\ h0 !! res = None
    /\ h' !! res
       = Some (NumArray (eigenvector (powerIteration m bv nIter tol (fun _ => draw)))).
Proof.
  intros HA Hrows Hb Hrng Hsub0 Hdraw.
  destruct (vectorNormalizeH_produces h0 l0 draw Hdraw)
    as (r0 & h1 & Hc1 & Hsub1 & Hfresh1 & Hr0).
  assert (Hsub01 : h ⊆ h1) by now transitivity h0.
  destruct (iterateH_result A rows m b bv tol nIter h1 r0 (vectorNormalize draw))
    as (res & h' & Hc & Hsub & Hres & Hl); eauto using lookup_weaken, rowsIn_weaken.
  assert (Hsub' : h ⊆ h') by now transitivity h1.
  exists res, h'. repeat split; eauto using lookup_weaken, rowsIn_weaken.
  - unfold powerIterationH.
    rewrite (bind_Some _ _ _ _ _ Hrng), (bind_Some _ _ _ _ _ Hc1). exact Hc.
  - now transitivity h1.
  - destruct Hres as [->|Hnone]; [exact Hfresh1|].
    now apply (lookup_weaken_None h0 h1).
Qed.
End StoreFacts.

(** C8 at a concrete input: the pair graph in a store, a zero bias, and an
    [rng] that allocates the initial vector [[1, 1]]. *)
Lemma powerIteration_leaves_its_inputs_witness :
  exists res h',
    powerIterationH 1%positive 4%positive 1000 (lit 0.01)
      (alloc (NumArray [lit 1; lit 1])) pair_store
    = Some (res, h')
    /\ pair_store ⊆ h'
    /\ <[fresh (dom pair_store) := NumArray [lit 1; lit 1]]> pair_store ⊆ h'
    /\ h' !! 1%positive = Some (RowArray [2%positive; 3%positive])
    /\ rowsIn h' [2%positive; 3%positive] = Some pair_graph
    /\ h' !! 4%positive = Some (NumArray [lit 0; lit 0])
    /\ <[fresh (dom pair_store) := NumArray [lit 1; lit 1]]> pair_store !! res = None
    /\ h' !! res
       = Some (NumArray (eigenvector (powerIteration pair_graph [lit 0; lit 0] 1000
                                        (lit 0.01) (fun _ => [lit 1; lit 1])))).
Proof.
  apply (powerIteration_leaves_its_inputs pair_store 1%positive
           [2%positive; 3%positive] pair_graph 4%positive [lit 0; lit 0] 1000 (lit 0.01)
           (alloc (NumArray [lit 1; lit 1])) (fresh (dom pair_store))
           (<[fresh (dom pair_store) := NumArray [lit 1; lit 1]]> pair_store)
           [lit 1; lit 1]); try reflexivity.
  apply insert_subseteq, not_elem_of_dom, is_fresh.
Defined.
